(** * BaseAvatar: candidate URL list and retry cursor

    A shallow embedding of [src/components/views/avatars/BaseAvatar.tsx]:
    the URL list builder [calculateUrls], the hook [useImageUrl] with its two
    state cells and its three event sources (image load error, change of the
    [url]/[urls] inputs, client sync), and the element returned by
    [BaseAvatar].

    Conventions.
    - A JavaScript string is a [string]: the bytes of its UTF-8 encoding.
    - [undefined] in a position typed [T | undefined] is [None].
    - The cursor [urlsIndex] is a JavaScript number that only ever holds
      [0] or a successor of a previous value; it is a [nat] here.  (Doubles
      count exactly up to 2^53, far more load errors than one widget can
      observe.)
    - [SettingsStore.getValue("lowBandwidth")] is ambient state in the
      source; every function that reads it takes it as its first argument. *)

From Stdlib Require Import Ascii String NArith PrimFloat.
From stdpp Require Import gmap strings list fin_maps.

Set Default Proof Using "Type".
Local Set Warnings "-inexact-float".

(** ** JavaScript truthiness on the types the hook handles *)

(** [if (url)] with [url : string | undefined]: the empty string and
    [undefined] are falsy, every other string is truthy. *)
Definition truthy_string (s : string) : bool :=
  match s with
  | EmptyString => false
  | String _ _ => true
  end.

Definition truthy (v : option string) : bool :=
  match v with
  | None => false
  | Some s => truthy_string s
  end.

(** ** The URL list builder *)

(** An ES2015 [Set] of strings, as the list of its elements in insertion
    order.  [add] leaves the set alone when the value is already in it
    (SameValueZero on strings is equality of the strings). *)
Definition Set_add (s : list string) (x : string) : list string :=
  if decide (x ∈ s) then s else s ++ [x].

(** [new Set(iterable)] adds the elements in iteration order. *)
Definition new_Set (iterable : list string) : list string :=
  foldl Set_add [] iterable.

(** [Array.from(set)] lists the set in insertion order. *)
Definition Array_from (s : list string) : list string := s.

(** [calculateUrls(url, urls)], lines 48-64. *)
Definition calculateUrls (lowBandwidth : bool)
    (url : option string) (urls : option (list string)) : list string :=
  let _urls :=
    if negb lowBandwidth then
      let _urls := default [] urls in              (* urls || [] *)
      match url with
      | Some u => if truthy_string u then u :: _urls else _urls
      | None => _urls
      end
    else [] in
  Array_from (new_Set _urls).

(** The builder as section 4.1 of the specification words it: start from the
    fallbacks (empty if absent), prepend the primary URL if it is present,
    deduplicate keeping first occurrences. *)
Fixpoint dedup_first (l : list string) : list string :=
  match l with
  | [] => []
  | x :: r => x :: filter (λ y, y ≠ x) (dedup_first r)
  end.

Definition prepend_present (url : option string) (l : list string) : list string :=
  match url with
  | Some u => u :: l
  | None => l
  end.

Definition build_spec (primaryUrl : option string)
    (fallbackUrls : option (list string)) (bandwidthSaving : bool) : list string :=
  if bandwidthSaving then []
  else dedup_first (prepend_present primaryUrl (default [] fallbackUrls)).

(** The builder's reading of "present": a URL that is a non-empty string. *)
Definition nonempty_url (url : option string) : option string :=
  match url with
  | Some u => if truthy_string u then Some u else None
  | None => None
  end.

(** ** [JSON.stringify] on an array of strings *)

Module JSON.

Definition dquote : ascii := "034"%char.
Definition backslash : ascii := "092"%char.

Definition hex_digit (n : N) : ascii :=
  match n with
  | 0 => "0" | 1 => "1" | 2 => "2" | 3 => "3" | 4 => "4" | 5 => "5"
  | 6 => "6" | 7 => "7" | 8 => "8" | 9 => "9" | 10 => "a" | 11 => "b"
  | 12 => "c" | 13 => "d" | 14 => "e" | _ => "f"
  end%N%char.

(** UnicodeEscape: a backslash, [u], and four lowercase hexadecimal digits. *)
Definition UnicodeEscape (n : N) : string :=
  String backslash (String "u"
    (String (hex_digit ((n / 4096) `mod` 16))
    (String (hex_digit ((n / 256) `mod` 16))
    (String (hex_digit ((n / 16) `mod` 16))
    (String (hex_digit (n `mod` 16)) ""))))).

(** One step of QuoteJSONString (ECMA-262, 25.5.2.3): the seven characters
    with a short escape, the other control characters as a Unicode escape,
    every other character as itself. *)
Definition quote_char (c : ascii) : string :=
  match N_of_ascii c with
  | 8 => String backslash "b"
  | 9 => String backslash "t"
  | 10 => String backslash "n"
  | 12 => String backslash "f"
  | 13 => String backslash "r"
  | 34 => String backslash (String dquote "")
  | 92 => String backslash (String backslash "")
  | n => if (n <? 32)%N then UnicodeEscape n else String c ""
  end%N.

Fixpoint quote_body (s : string) : string :=
  match s with
  | EmptyString => ""
  | String c r => quote_char c +:+ quote_body r
  end.

Definition QuoteJSONString (s : string) : string :=
  String dquote (quote_body s +:+ String dquote "").

(** SerializeJSONArray without indentation: the quoted elements separated
    by commas, in brackets. *)
Definition SerializeJSONArray (l : list string) : string :=
  "[" +:+ String.concat "," (QuoteJSONString <$> l) +:+ "]".

(** [JSON.stringify(urls)]: [undefined] for [undefined]. *)
Definition stringify (urls : option (list string)) : option string :=
  SerializeJSONArray <$> urls.

(** Reading one quoted character back; used to show that [stringify]
    separates different arrays. *)
Definition unhex_digit (c : ascii) : N :=
  let n := N_of_ascii c in
  if (n <? 58)%N then (n - 48)%N else (n - 87)%N.

Definition unquote_char (s : string) : option (ascii * string) :=
  match s with
  | EmptyString => None
  | String c r =>
      if decide (c = dquote) then None
      else if decide (c = backslash) then
        match r with
        | String "b" r' => Some ("008"%char, r')
        | String "t" r' => Some ("009"%char, r')
        | String "n" r' => Some ("010"%char, r')
        | String "f" r' => Some ("012"%char, r')
        | String "r" r' => Some ("013"%char, r')
        | String "u" (String h3 (String h2 (String h1 (String h0 r')))) =>
            Some (ascii_of_N (unhex_digit h3 * 4096 + unhex_digit h2 * 256
                              + unhex_digit h1 * 16 + unhex_digit h0), r')
        | String e r' =>
            if decide (e = dquote) then Some (dquote, r')
            else if decide (e = backslash) then Some (backslash, r')
            else None
        | EmptyString => None
        end
      else Some (c, r)
  end.

End JSON.

(** ** The hook [useImageUrl] *)

(** The state React keeps for one call site of the hook: the two [useState]
    cells and the dependency array remembered for the [useEffect]. *)
Record HookState := mkHookState {
  imageUrls : list string;
  urlsIndex : nat;
  effectDeps : option string * option string
}.

(** Calls of the two state setters.  [setIndex] is called both with a value
    and with an updater function. *)
Inductive SetState :=
  | setUrls (l : list string)
  | setIndex (n : nat)
  | setIndexWith (f : nat → nat).

Definition apply_set (st : HookState) (u : SetState) : HookState :=
  match u with
  | setUrls l => mkHookState l (urlsIndex st) (effectDeps st)
  | setIndex n => mkHookState (imageUrls st) n (effectDeps st)
  | setIndexWith f => mkHookState (imageUrls st) (f (urlsIndex st)) (effectDeps st)
  end.

(** React applies the queued updates in the order of the calls. *)
Definition dispatch (us : list SetState) (st : HookState) : HookState :=
  foldl apply_set st us.

(** [onError], lines 70-72. *)
Definition onError : list SetState :=
  [setIndexWith (λ i, i + 1)].

(** The body of the effect, lines 75-76. *)
Definition urlEffect (lowBandwidth : bool)
    (url : option string) (urls : option (list string)) : list SetState :=
  [setUrls (calculateUrls lowBandwidth url urls); setIndex 0].

(** The dependency array of the effect, line 77. *)
Definition urlEffectDeps (url : option string) (urls : option (list string))
    : option string * option string :=
  (url, JSON.stringify urls).

(** [onClientSync], lines 80-87.  [prevState] is [null] on the first sync
    event, which is [None] here. *)
Definition reconnected (syncState : string) (prevState : option string) : bool :=
  bool_decide (syncState ≠ "ERROR") && bool_decide (prevState ≠ Some syncState).

Definition onClientSync (syncState : string) (prevState : option string)
    : list SetState :=
  if reconnected syncState prevState then [setIndex 0] else [].

(** The first render: both cells take their initial value, and the effect
    runs once after it. *)
Definition useImageUrl_mount (lowBandwidth : bool)
    (url : option string) (urls : option (list string)) : HookState :=
  dispatch (urlEffect lowBandwidth url urls)
    (mkHookState (calculateUrls lowBandwidth url urls) 0 (urlEffectDeps url urls)).

(** A later render with inputs [url], [urls]: React compares the new
    dependency array with the remembered one, element by element, and runs
    the effect when they differ. *)
Definition useImageUrl_update (lowBandwidth : bool)
    (url : option string) (urls : option (list string))
    (st : HookState) : HookState :=
  if decide (urlEffectDeps url urls = effectDeps st) then st
  else dispatch (urlEffect lowBandwidth url urls)
         (mkHookState (imageUrls st) (urlsIndex st) (urlEffectDeps url urls)).

(** [imageUrls[urlsIndex]], line 90: reading an array out of range gives
    [undefined] in JavaScript. *)
Definition imageUrl (st : HookState) : option string :=
  imageUrls st !! urlsIndex st.

(** The three events of the widget's life after the first render. *)
Inductive Event :=
  | LoadFailure
  | Sync (syncState : string) (prevState : option string)
  | Render (lowBandwidth : bool) (url : option string) (urls : option (list string)).

Definition step (st : HookState) (ev : Event) : HookState :=
  match ev with
  | LoadFailure => dispatch onError st
  | Sync syncState prevState => dispatch (onClientSync syncState prevState) st
  | Render lowBandwidth url urls => useImageUrl_update lowBandwidth url urls st
  end.

Definition run (st : HookState) (evs : list Event) : HookState :=
  foldl step st evs.

(** [k] load failures in a row. *)
Definition failures (k : nat) : list Event := replicate k LoadFailure.

Definition is_failure (ev : Event) : bool :=
  match ev with
  | LoadFailure => true
  | _ => false
  end.

Definition count_failures (evs : list Event) : nat :=
  length (filter is_failure evs).

(** The events that set the cursor back to 0 in state [st]: a sync event
    that counts as a reconnection, and a render whose dependency array
    differs from the remembered one. *)
Definition resets (st : HookState) (ev : Event) : bool :=
  match ev with
  | LoadFailure => false
  | Sync syncState prevState => reconnected syncState prevState
  | Render _ url urls => bool_decide (urlEffectDeps url urls ≠ effectDeps st)
  end.

(** The range section 4.2 of the specification gives for the cursor. *)
Definition cursor_in_range (st : HookState) : Prop :=
  urlsIndex st ≤ length (imageUrls st).

(** ** The component [BaseAvatar] *)

(** Values of a CSS property object. *)
Inductive Css :=
  | CssStr (s : string)
  | CssNum (n : float).

(** The JavaScript values that occur as properties of the [props] object
    and of the elements the component returns. *)
Inductive Val :=
  | VUndefined
  | VNull
  | VBool (b : bool)
  | VNum (n : float)
  | VStr (s : string)
  | VStrs (l : list string)          (* string[] *)
  | VStyle (o : gmap string Css)     (* React.CSSProperties *)
  | VFun (h : positive)              (* a function, by identity *)
  | VRef (r : positive)              (* a ref object, by identity *)
  | VOnError.                        (* the callback the hook returns *)

(** Reading a property: a missing property reads as [undefined]. *)
Definition prop (props : gmap string Val) (k : string) : Val :=
  default VUndefined (props !! k).

(** A default in a destructuring pattern applies when the value read is
    [undefined]. *)
Definition with_default (v d : Val) : Val :=
  match v with
  | VUndefined => d
  | _ => v
  end.

(** ToBoolean. *)
Definition js_truthy (v : Val) : bool :=
  match v with
  | VUndefined | VNull => false
  | VBool b => b
  | VNum n => negb (n =? 0)%float && (n =? n)%float      (* not 0, -0 or NaN *)
  | VStr s => truthy_string s
  | VStrs _ | VStyle _ | VFun _ | VRef _ | VOnError => true
  end.

(** [a || b]. *)
Definition js_or (a b : Val) : Val :=
  if js_truthy a then a else b.

(** [c ? a : b]. *)
Definition js_cond (c a b : Val) : Val :=
  if js_truthy c then a else b.

(** Properties are read at the type [IProps] declares for them where the
    component computes with the value: [url?: string], [urls?: string[]],
    [width?: number], [height?: number], [style?: React.CSSProperties].
    A value of another type is outside the interface, and these readings
    take it for [undefined]; that includes [null], which the code tells
    from [undefined] in two places: the defaults [width = 40] and
    [height = 40] apply to [undefined] only, and the dependency array of
    the effect holds [url] and [JSON.stringify(urls)] as they are.  The
    predicates [number_or_undefined] and [style_or_undefined] below say
    when a value is of the declared type. *)
Definition as_string (v : Val) : option string :=
  match v with
  | VStr s => Some s
  | _ => None
  end.

Definition as_strings (v : Val) : option (list string) :=
  match v with
  | VStrs l => Some l
  | _ => None
  end.

Definition as_number (d : float) (v : Val) : float :=
  match v with
  | VNum n => n
  | _ => d
  end.

(** [...style] in an object literal: nothing for [undefined]. *)
Definition as_style (v : Val) : gmap string Css :=
  match v with
  | VStyle o => o
  | _ => ∅
  end.

(** The declared types [number | undefined] and
    [React.CSSProperties | undefined]. *)
Definition number_or_undefined (v : Val) : bool :=
  match v with
  | VUndefined | VNum _ => true
  | _ => false
  end.

Definition style_or_undefined (v : Val) : bool :=
  match v with
  | VUndefined | VStyle _ => true
  | _ => false
  end.

Definition of_string (v : option string) : Val :=
  match v with
  | Some s => VStr s
  | None => VUndefined
  end.

(** The names bound by the destructuring pattern of lines 95-110; the rest
    pattern [...otherProps] collects every other own property of [props]. *)
Definition destructured : list string :=
  [ "name"; "idName"; "title"; "url"; "urls"; "width"; "height";
    "resizeMethod"; "defaultToInitialLetter"; "onClick"; "inputRef";
    "className"; "style" ].

Definition rest_props (names : list string) (props : gmap string Val)
    : gmap string Val :=
  foldr delete props names.

(** The attributes of a JSX element in source order: a later attribute
    overrides an earlier one, and a spread copies every property of its
    object over what precedes it. *)
Inductive JsxAttr :=
  | attr (k : string) (v : Val)
  | spread (o : gmap string Val).

Definition jsx_attr (m : gmap string Val) (a : JsxAttr) : gmap string Val :=
  match a with
  | attr k v => <[k := v]> m
  | spread o => o ∪ m
  end.

Definition jsx (attrs : list JsxAttr) : gmap string Val :=
  foldl jsx_attr ∅ attrs.

(** The four [return] statements of the component. *)
Inductive Rendered :=
  | PlaceholderButton (config : gmap string Val)   (* lines 126-135 *)
  | PlaceholderSpan (config : gmap string Val)     (* lines 139-146 *)
  | ImageButton (config : gmap string Val)         (* lines 153-166 *)
  | ImageImg (config : gmap string Val).           (* lines 170-181 *)

Definition is_placeholder (r : Rendered) : bool :=
  match r with
  | PlaceholderButton _ | PlaceholderSpan _ => true
  | ImageButton _ | ImageImg _ => false
  end.

Definition config_of (r : Rendered) : gmap string Val :=
  match r with
  | PlaceholderButton c | PlaceholderSpan c | ImageButton c | ImageImg c => c
  end.

(** The modules the component imports; none of them is part of this file's
    source, so the component is parametrised by them. *)
Class Collaborators := {
  toPx : float → string;                        (* utils/units *)
  defaultAvatarUrlForString : Val → string;     (* Avatar *)
  getInitialLetter : Val → Val;                 (* Avatar *)
  classNames : string → Val → string;           (* classnames *)
  _t : string → string                          (* languageHandler *)
}.

(** The key handed to the colour generator, line 120. *)
Definition placeholderKey (props : gmap string Val) : Val :=
  js_or (prop props "idName") (prop props "name").

Section Component.
Context `{Collaborators}.

(** The [background] of the placeholder, line 120. *)
Definition placeholderBackground (props : gmap string Val) : Css :=
  CssStr ("url(" +:+ defaultAvatarUrlForString (placeholderKey props) +:+ ")").

(** [BaseAvatar(props)], lines 94-184, at the hook state [st] of the
    render. *)
Definition BaseAvatar (props : gmap string Val) (st : HookState) : Rendered :=
  let name := prop props "name" in
  let title := prop props "title" in
  let width := as_number 40 (prop props "width") in
  let height := as_number 40 (prop props "height") in
  let defaultToInitialLetter :=
    with_default (prop props "defaultToInitialLetter") (VBool true) in
  let onClick := prop props "onClick" in
  let inputRef := prop props "inputRef" in
  let className := prop props "className" in
  let style := as_style (prop props "style") in
  let otherProps := rest_props destructured props in
  let imageUrl := imageUrl st in
  if negb (truthy imageUrl) && js_truthy defaultToInitialLetter then
    let styleProp :=
      <["borderRadius" := CssStr "50%"]> (
      <["background" := placeholderBackground props]> (
      <["height" := CssStr (toPx height)]> (
      <["width" := CssStr (toPx width)]> (
      <["fontSize" := CssStr (toPx (width * 0.65)%float)]> style)))) in
    let initial := js_cond defaultToInitialLetter (getInitialLetter name) VNull in
    if js_truthy onClick then
      PlaceholderButton (jsx [
        attr "aria-label" (VStr (_t "Avatar"));
        spread otherProps;
        attr "element" (VStr "span");
        attr "className" (VStr (classNames "mx_BaseAvatar" className));
        attr "onClick" onClick;
        attr "inputRef" inputRef;
        attr "data-initial" initial;
        attr "style" (VStyle styleProp) ])
    else
      PlaceholderSpan (jsx [
        attr "className" (VStr (classNames "mx_BaseAvatar" className));
        attr "ref" inputRef;
        spread otherProps;
        attr "role" (VStr "presentation");
        attr "data-initial" initial;
        attr "style" (VStyle styleProp) ])
  else
    let imgStyle :=
      <["height" := CssStr (toPx height)]> (
      <["width" := CssStr (toPx width)]> style) in
    if js_truthy onClick then
      ImageButton (jsx [
        attr "className"
          (VStr (classNames "mx_BaseAvatar mx_BaseAvatar_image" className));
        attr "element" (VStr "img");
        attr "src" (of_string imageUrl);
        attr "onClick" onClick;
        attr "onError" VOnError;
        attr "style" (VStyle imgStyle);
        attr "title" title;
        attr "alt" (VStr (_t "Avatar"));
        attr "inputRef" inputRef;
        spread otherProps ])
    else
      ImageImg (jsx [
        attr "className"
          (VStr (classNames "mx_BaseAvatar mx_BaseAvatar_image" className));
        attr "src" (of_string imageUrl);
        attr "onError" VOnError;
        attr "style" (VStyle imgStyle);
        attr "title" title;
        attr "alt" (VStr "");
        attr "ref" inputRef;
        spread otherProps ]).

End Component.

(** The inputs the component hands to the hook, line 112. *)
Definition hookUrl (props : gmap string Val) : option string :=
  as_string (prop props "url").

Definition hookUrls (props : gmap string Val) : option (list string) :=
  as_strings (prop props "urls").

(** Mounting the component and rendering it again with new props. *)
Definition BaseAvatar_mount (lowBandwidth : bool) (props : gmap string Val)
    : HookState :=
  useImageUrl_mount lowBandwidth (hookUrl props) (hookUrls props).

Definition BaseAvatar_update (lowBandwidth : bool) (props : gmap string Val)
    (st : HookState) : HookState :=
  useImageUrl_update lowBandwidth (hookUrl props) (hookUrls props) st.

(** The element goes through [AccessibleButton]. *)
Definition is_button (r : Rendered) : bool :=
  match r with
  | PlaceholderButton _ | ImageButton _ => true
  | PlaceholderSpan _ | ImageImg _ => false
  end.

(** The value of [defaultToInitialLetter] after its default, as a boolean. *)
Definition placeholder_enabled (props : gmap string Val) : bool :=
  js_truthy (with_default (prop props "defaultToInitialLetter") (VBool true)).

(** The destructured names that no [return] statement hands on. *)
Definition consumed : list string :=
  [ "name"; "idName"; "url"; "urls"; "width"; "height"; "resizeMethod";
    "defaultToInitialLetter" ].

(** The style properties the placeholder sets itself, and those the image
    sets itself. *)
Definition placeholder_style_keys : list string :=
  [ "fontSize"; "width"; "height"; "background"; "borderRadius" ].

Definition image_style_keys : list string := [ "width"; "height" ].

(** The inputs of the latest render of a history that was mounted with the
    inputs [init]. *)
Definition last_inputs (init : option string * option (list string))
    (evs : list Event) : option string * option (list string) :=
  foldl (λ acc ev,
           match ev with
           | Render _ url urls => (url, urls)
           | _ => acc
           end) init evs.

(** The low-bandwidth value and the inputs of the build that produced the
    stored list: those of the mount, replaced at every render whose inputs
    differ from the ones held. *)
Definition last_build (init : bool * (option string * option (list string)))
    (evs : list Event) : bool * (option string * option (list string)) :=
  foldl (λ acc ev,
           match ev with
           | Render lb url urls =>
               if decide ((url, urls) = acc.2) then acc else (lb, (url, urls))
           | _ => acc
           end) init evs.

(** ** The component with exceptions *)

(** A JavaScript call returns a value or throws. *)
Inductive Outcome (A : Type) :=
  | Throws
  | Returns (a : A).
Global Arguments Throws {A}.
Global Arguments Returns {A} a.

Global Instance Outcome_ret : MRet Outcome := λ A a, Returns a.
Global Instance Outcome_bind : MBind Outcome := λ A B k c,
  match c with
  | Throws => Throws
  | Returns a => k a
  end.

(** The calls a render makes into other modules: [SettingsStore.getValue]
    (line 53, reached from line 67 at every render), [useEventEmitter]
    (line 88) and the five functions of [Collaborators].  The hooks of React
    itself are taken to return. *)
Class Calls := {
  call_getValue : string → Outcome bool;
  call_useEventEmitter : Outcome unit;
  call_toPx : float → Outcome string;
  call_defaultAvatarUrlForString : Val → Outcome string;
  call_getInitialLetter : Val → Outcome Val;
  call_classNames : string → Val → Outcome string;
  call_t : string → Outcome string
}.

(** [BaseAvatar(props)] as a computation that may throw, with the calls in
    the order the source evaluates them.  Nothing else in the body can
    throw: [props] is an object, [||], [!], [*], the object spreads (also
    of [undefined]) and the template literal are defined on every value. *)
Definition BaseAvatar_outcome `{Calls}
    (props : gmap string Val) (st : HookState) : Outcome Rendered :=
  _ ← call_getValue "lowBandwidth";
  _ ← call_useEventEmitter;
  let name := prop props "name" in
  let title := prop props "title" in
  let width := as_number 40 (prop props "width") in
  let height := as_number 40 (prop props "height") in
  let defaultToInitialLetter :=
    with_default (prop props "defaultToInitialLetter") (VBool true) in
  let onClick := prop props "onClick" in
  let inputRef := prop props "inputRef" in
  let className := prop props "className" in
  let style := as_style (prop props "style") in
  let otherProps := rest_props destructured props in
  let imageUrl := imageUrl st in
  if negb (truthy imageUrl) && js_truthy defaultToInitialLetter then
    fontSize ← call_toPx (width * 0.65)%float;
    w ← call_toPx width;
    h ← call_toPx height;
    background ← call_defaultAvatarUrlForString (placeholderKey props);
    let styleProp :=
      <["borderRadius" := CssStr "50%"]> (
      <["background" := CssStr ("url(" +:+ background +:+ ")")]> (
      <["height" := CssStr h]> (
      <["width" := CssStr w]> (
      <["fontSize" := CssStr fontSize]> style)))) in
    if js_truthy onClick then
      label ← call_t "Avatar";
      cls ← call_classNames "mx_BaseAvatar" className;
      initial ← (if js_truthy defaultToInitialLetter
                 then call_getInitialLetter name else mret VNull);
      mret (PlaceholderButton (jsx [
        attr "aria-label" (VStr label);
        spread otherProps;
        attr "element" (VStr "span");
        attr "className" (VStr cls);
        attr "onClick" onClick;
        attr "inputRef" inputRef;
        attr "data-initial" initial;
        attr "style" (VStyle styleProp) ]))
    else
      cls ← call_classNames "mx_BaseAvatar" className;
      initial ← (if js_truthy defaultToInitialLetter
                 then call_getInitialLetter name else mret VNull);
      mret (PlaceholderSpan (jsx [
        attr "className" (VStr cls);
        attr "ref" inputRef;
        spread otherProps;
        attr "role" (VStr "presentation");
        attr "data-initial" initial;
        attr "style" (VStyle styleProp) ]))
  else
    if js_truthy onClick then
      cls ← call_classNames "mx_BaseAvatar mx_BaseAvatar_image" className;
      w ← call_toPx width;
      h ← call_toPx height;
      label ← call_t "Avatar";
      mret (ImageButton (jsx [
        attr "className" (VStr cls);
        attr "element" (VStr "img");
        attr "src" (of_string imageUrl);
        attr "onClick" onClick;
        attr "onError" VOnError;
        attr "style" (VStyle (<["height" := CssStr h]> (<["width" := CssStr w]> style)));
        attr "title" title;
        attr "alt" (VStr label);
        attr "inputRef" inputRef;
        spread otherProps ]))
    else
      cls ← call_classNames "mx_BaseAvatar mx_BaseAvatar_image" className;
      w ← call_toPx width;
      h ← call_toPx height;
      mret (ImageImg (jsx [
        attr "className" (VStr cls);
        attr "src" (of_string imageUrl);
        attr "onError" VOnError;
        attr "style" (VStyle (<["height" := CssStr h]> (<["width" := CssStr w]> style)));
        attr "title" title;
        attr "alt" (VStr "");
        attr "ref" inputRef;
        spread otherProps ])).

(** Modelled from the spec: the modules the component calls into
    ([settings/SettingsStore], [hooks/useEventEmitter], [Avatar],
    [utils/units], [classnames], [languageHandler]) are not under [src/].
    Section 6 of the specification gives them as a read-only setting flag
    and as functions from a key, a name or a number to a value, and section
    7 says that no exception is raised in normal operation: each call
    returns, with the value the corresponding function of [Collaborators]
    gives and [lowBandwidth] for the setting. *)
Definition returning_calls `{Collaborators} (lowBandwidth : bool) : Calls := {|
  call_getValue := λ _, Returns lowBandwidth;
  call_useEventEmitter := Returns ();
  call_toPx := λ n, Returns (toPx n);
  call_defaultAvatarUrlForString := λ v, Returns (defaultAvatarUrlForString v);
  call_getInitialLetter := λ v, Returns (getInitialLetter v);
  call_classNames := λ a b, Returns (classNames a b);
  call_t := λ s, Returns (_t s)
|}.

(** Stand-ins for the imported modules, to run the component on examples. *)
Definition sample_collaborators : Collaborators := {|
  toPx := λ n,
    if (n =? 40)%float then "40px" else if (n =? 26)%float then "26px" else "px";
  defaultAvatarUrlForString := λ v,
    match v with
    | VStr s => "img/" +:+ s
    | _ => "img/undefined"
    end;
  getInitialLetter := λ v,
    match v with
    | VStr (String c _) => VStr (String c "")
    | _ => VUndefined
    end;
  classNames := λ a b,
    match b with
    | VStr s => a +:+ " " +:+ s
    | _ => a
    end;
  _t := λ s, s
|}.

(** * Properties *)

(** ** The URL list builder *)

Section builder.
Implicit Types (l s : list string) (x y : string).

Lemma elem_of_dedup_first l x : x ∈ dedup_first l ↔ x ∈ l.
Proof.
  induction l as [|y l IH]; simpl; [done|].
  rewrite !elem_of_cons, list_elem_of_filter, IH.
  destruct (decide (x = y)); tauto.
Qed.

Lemma NoDup_dedup_first l : NoDup (dedup_first l).
Proof.
  induction l as [|y l IH]; simpl; [constructor|].
  constructor; [|by apply NoDup_filter].
  rewrite list_elem_of_filter. tauto.
Qed.

(** Appending one element to the input appends it to the result exactly
    when it is new: the step [Set.prototype.add] performs. *)
Lemma dedup_first_snoc l x :
  dedup_first (l ++ [x]) = Set_add (dedup_first l) x.
Proof.
  unfold Set_add. induction l as [|y l IH]; simpl; [done|].
  rewrite IH. destruct (decide (x = y)) as [->|Hxy].
  - rewrite (decide_True (P := y ∈ y :: _)) by apply list_elem_of_here.
    case_decide; [done|].
    rewrite filter_app, filter_cons_False, app_nil_r; tauto.
  - destruct (decide (x ∈ dedup_first l)) as [Hin|Hin].
    + rewrite decide_True; [done|].
      apply list_elem_of_further, list_elem_of_filter; tauto.
    + rewrite decide_False.
      { by rewrite filter_app, filter_cons_True. }
      rewrite elem_of_cons, list_elem_of_filter. tauto.
Qed.

Lemma new_Set_snoc l x : new_Set (l ++ [x]) = Set_add (new_Set l) x.
Proof. unfold new_Set. by rewrite foldl_app. Qed.

Lemma new_Set_dedup_first l : new_Set l = dedup_first l.
Proof.
  induction l as [|x l IH] using rev_ind; [done|].
  by rewrite new_Set_snoc, dedup_first_snoc, IH.
Qed.

Lemma NoDup_calculateUrls lb url urls : NoDup (calculateUrls lb url urls).
Proof.
  unfold calculateUrls, Array_from.
  rewrite new_Set_dedup_first. apply NoDup_dedup_first.
Qed.
End builder.

(** C5.  With the low-bandwidth setting on, [calculateUrls] returns the
    empty list for every [url] and every [urls]. *)
Theorem calculateUrls_lowBandwidth url urls :
  calculateUrls true url urls = [].
Proof. reflexivity. Qed.

(** C6, as stated, fails on an empty primary URL: [url = ""] is a string
    that is present, the specification's builder prepends it, and
    [calculateUrls] drops it because the empty string is falsy. *)
Lemma calculateUrls_empty_primary_dropped :
  calculateUrls false (Some "") (Some ["B"]) = ["B"]
  ∧ build_spec (Some "") (Some ["B"]) false = [""; "B"]
  ∧ calculateUrls false (Some "") (Some ["B"])
    ≠ build_spec (Some "") (Some ["B"]) false.
Proof. by repeat split. Qed.

(** C6, amended.  With the low-bandwidth setting off, [calculateUrls]
    returns the fallbacks (empty if absent) with the primary URL prepended
    when it is present and not the empty string, deduplicated keeping first
    occurrences; the two examples of the specification evaluate as it says. *)
Theorem calculateUrls_dedup_prepend url urls :
  calculateUrls false url urls = build_spec (nonempty_url url) urls false
  ∧ calculateUrls false (Some "A") (Some ["B"; "A"; "C"]) = ["A"; "B"; "C"]
  ∧ calculateUrls false None (Some ["A"; "A"]) = ["A"].
Proof.
  split; [|by split].
  unfold calculateUrls, build_spec, Array_from, nonempty_url, prepend_present.
  cbn [negb]. rewrite new_Set_dedup_first.
  destruct url as [u|]; [|done]. by destruct (truthy_string u).
Qed.

(** ** [JSON.stringify] separates different arrays *)

Module JSONFacts.
Import JSON.

Lemma string_app_nil (s : string) : "" +:+ s = s.
Proof. reflexivity. Qed.

Lemma string_app_cons c (a b : string) : String c a +:+ b = String c (a +:+ b).
Proof. reflexivity. Qed.

Lemma string_app_assoc (a b c : string) : (a +:+ b) +:+ c = a +:+ (b +:+ c).
Proof.
  induction a as [|x a IH]; [done|].
  by rewrite !string_app_cons, IH.
Qed.

(** Every character is read back from its quoted form, whatever follows. *)
Lemma unquote_quote_char c r : unquote_char (quote_char c +:+ r) = Some (c, r).
Proof. destruct c as [[] [] [] [] [] [] [] []]; reflexivity. Qed.

(** No quoted character starts with the closing quote. *)
Lemma unquote_char_dquote r : unquote_char (String dquote r) = None.
Proof. reflexivity. Qed.

Lemma quote_body_inj s1 : ∀ s2 r1 r2,
  quote_body s1 +:+ String dquote r1 = quote_body s2 +:+ String dquote r2 →
  s1 = s2 ∧ r1 = r2.
Proof.
  induction s1 as [|c1 s1 IH]; intros [|c2 s2] r1 r2; cbn [quote_body];
    rewrite ?string_app_nil, ?string_app_assoc; intros Heq.
  - by injection Heq.
  - apply (f_equal unquote_char) in Heq.
    by rewrite unquote_quote_char, unquote_char_dquote in Heq.
  - apply (f_equal unquote_char) in Heq.
    by rewrite unquote_quote_char, unquote_char_dquote in Heq.
  - apply (f_equal unquote_char) in Heq.
    rewrite !unquote_quote_char in Heq.
    injection Heq as -> Hrest. by destruct (IH _ _ _ Hrest) as [-> ->].
Qed.

Lemma QuoteJSONString_inj s1 s2 r1 r2 :
  QuoteJSONString s1 +:+ r1 = QuoteJSONString s2 +:+ r2 → s1 = s2 ∧ r1 = r2.
Proof.
  unfold QuoteJSONString.
  rewrite !string_app_cons, !string_app_assoc, !string_app_cons, !string_app_nil.
  intros Heq. injection Heq as Heq. by apply quote_body_inj.
Qed.

Lemma concat_quoted_inj l1 : ∀ l2 r1 r2,
  String.concat "," (QuoteJSONString <$> l1) +:+ String "]" r1
  = String.concat "," (QuoteJSONString <$> l2) +:+ String "]" r2 →
  l1 = l2.
Proof.
  induction l1 as [|a l1 IH]; intros [|b l2] r1 r2; [done|..].
  - destruct l2; discriminate.
  - destruct l1; discriminate.
  - rewrite !fmap_cons. intros Heq.
    destruct l1 as [|a' l1], l2 as [|b' l2];
      cbn [String.concat fmap list_fmap] in Heq;
      rewrite ?string_app_assoc in Heq;
      apply QuoteJSONString_inj in Heq as [-> Heq]; try discriminate.
    + done.
    + rewrite !string_app_cons, !string_app_nil in Heq.
      injection Heq as Heq.
      f_equal. by apply (IH (b' :: l2) r1 r2).
Qed.

Lemma SerializeJSONArray_inj l1 l2 :
  SerializeJSONArray l1 = SerializeJSONArray l2 → l1 = l2.
Proof.
  unfold SerializeJSONArray.
  rewrite !string_app_cons, !string_app_nil.
  intros Heq. injection Heq as Heq.
  by apply (concat_quoted_inj l1 l2 "" "").
Qed.

Lemma stringify_inj urls1 urls2 :
  stringify urls1 = stringify urls2 → urls1 = urls2.
Proof.
  destruct urls1 as [l1|], urls2 as [l2|]; intros Heq; try done.
  apply (inj Some) in Heq. f_equal. by apply SerializeJSONArray_inj.
Qed.

End JSONFacts.

Example stringify_empty :
  JSON.stringify (Some []) = Some "[]" ∧ JSON.stringify None = None.
Proof. by split. Qed.

(** A comma inside an element is not confused with a separator. *)
Example stringify_separates :
  JSON.stringify (Some ["a,b"]) ≠ JSON.stringify (Some ["a"; "b"]).
Proof. intros Heq. by apply JSONFacts.stringify_inj in Heq. Qed.

(** The dependency array changes exactly when the inputs change by value. *)
Lemma urlEffectDeps_inj url1 urls1 url2 urls2 :
  urlEffectDeps url1 urls1 = urlEffectDeps url2 urls2 ↔
  (url1, urls1) = (url2, urls2).
Proof.
  unfold urlEffectDeps. split; intros [= -> Hurls]; [|by rewrite Hurls].
  by apply JSONFacts.stringify_inj in Hurls as ->.
Qed.

(** ** The hook *)

Section hook.
Implicit Types (st : HookState) (ev : Event) (evs : list Event) (k : nat).

Lemma step_LoadFailure st :
  step st LoadFailure
  = mkHookState (imageUrls st) (urlsIndex st + 1) (effectDeps st).
Proof. reflexivity. Qed.

Lemma step_Sync st syncState prevState :
  step st (Sync syncState prevState)
  = if reconnected syncState prevState
    then mkHookState (imageUrls st) 0 (effectDeps st)
    else st.
Proof.
  unfold step, onClientSync. by destruct (reconnected syncState prevState).
Qed.

Lemma step_Render_changed st lb url urls :
  urlEffectDeps url urls ≠ effectDeps st →
  step st (Render lb url urls)
  = mkHookState (calculateUrls lb url urls) 0 (urlEffectDeps url urls).
Proof.
  intros Hne. unfold step, useImageUrl_update. by rewrite decide_False.
Qed.

Lemma step_Render_same st lb url urls :
  urlEffectDeps url urls = effectDeps st →
  step st (Render lb url urls) = st.
Proof.
  intros Heq. unfold step, useImageUrl_update. by rewrite decide_True.
Qed.

Lemma useImageUrl_mount_eq lb url urls :
  useImageUrl_mount lb url urls
  = mkHookState (calculateUrls lb url urls) 0 (urlEffectDeps url urls).
Proof. reflexivity. Qed.

Lemma run_snoc st evs ev : run st (evs ++ [ev]) = step (run st evs) ev.
Proof. unfold run. by rewrite foldl_app. Qed.

Lemma run_failures st k :
  run st (failures k)
  = mkHookState (imageUrls st) (urlsIndex st + k) (effectDeps st).
Proof.
  revert st. induction k as [|k IH]; intros st.
  - destruct st. simpl. f_equal. lia.
  - change (run st (failures (S k)))
      with (run (step st LoadFailure) (failures k)).
    rewrite IH, step_LoadFailure. simpl. f_equal. lia.
Qed.

Lemma imageUrl_None st :
  imageUrl st = None ↔ length (imageUrls st) ≤ urlsIndex st.
Proof. apply lookup_ge_None. Qed.

(** Each load failure moves the resolved candidate to the next element. *)
Lemma imageUrl_LoadFailure st :
  imageUrl (step st LoadFailure) = imageUrls st !! S (urlsIndex st).
Proof.
  rewrite step_LoadFailure. unfold imageUrl. simpl. f_equal. lia.
Qed.

(** The cursor after one event, for each of the three kinds of event. *)
Lemma urlsIndex_step st ev :
  urlsIndex (step st ev)
  = if resets st ev then 0
    else if is_failure ev then urlsIndex st + 1 else urlsIndex st.
Proof.
  destruct ev as [|s p|lb url urls]; cbn [resets is_failure].
  - by rewrite step_LoadFailure.
  - rewrite step_Sync. by destruct (reconnected s p).
  - case_bool_decide as Hdeps.
    + by rewrite step_Render_changed.
    + by rewrite step_Render_same.
Qed.

Lemma urlsIndex_step_le st ev :
  urlsIndex (step st ev) ≤ urlsIndex st + (if is_failure ev then 1 else 0).
Proof.
  rewrite urlsIndex_step.
  destruct (resets st ev), (is_failure ev); lia.
Qed.

Lemma urlsIndex_run_le st evs :
  urlsIndex (run st evs) ≤ urlsIndex st + count_failures evs.
Proof.
  induction evs as [|ev evs IH] using rev_ind; [simpl; lia|].
  rewrite run_snoc. unfold count_failures in *.
  rewrite filter_app, length_app.
  pose proof (urlsIndex_step_le (run st evs) ev) as Hstep.
  rewrite filter_cons, filter_nil.
  destruct (is_failure ev); simpl in *; lia.
Qed.
End hook.

(** C1.  After mounting with any inputs, the resolved candidate is the
    first element of the candidate list; after [k] load failures it is the
    element at position [k], and one more failure moves it to position
    [k + 1]; after [N] failures or more, [N] being the length of the list,
    it is absent, and it stays absent under any further failure.  Every
    step is a total function: no failure event can throw. *)
Theorem resolved_after_failures lb url urls k j :
  imageUrl (useImageUrl_mount lb url urls) = head (calculateUrls lb url urls)
  ∧ imageUrl (run (useImageUrl_mount lb url urls) (failures k))
    = calculateUrls lb url urls !! k
  ∧ imageUrl (step (run (useImageUrl_mount lb url urls) (failures k)) LoadFailure)
    = calculateUrls lb url urls !! S k
  ∧ imageUrl (run (useImageUrl_mount lb url urls)
               (failures (length (calculateUrls lb url urls) + j)))
    = None.
Proof.
  rewrite !run_failures, step_LoadFailure, useImageUrl_mount_eq.
  unfold imageUrl. cbn [imageUrls urlsIndex].
  repeat split.
  - by rewrite head_lookup.
  - f_equal. lia.
  - apply lookup_ge_None. lia.
Qed.

(** The example of the specification: candidates A, B. *)
Example resolved_A_B :
  imageUrl <$> [ run (useImageUrl_mount false (Some "A") (Some ["B"])) (failures 0);
                 run (useImageUrl_mount false (Some "A") (Some ["B"])) (failures 1);
                 run (useImageUrl_mount false (Some "A") (Some ["B"])) (failures 2);
                 run (useImageUrl_mount false (Some "A") (Some ["B"])) (failures 3) ]
  = [Some "A"; Some "B"; None; None].
Proof. reflexivity. Qed.

(** C2.  For every state and every sync event, [onClientSync] calls
    [setIndex(0)] if and only if the new sync state is not ["ERROR"] and
    differs from the previous one, and then the cursor is 0; in every other
    case it calls no setter and the state is unchanged. *)
Theorem sync_resets_iff_reconnected st syncState prevState :
  (onClientSync syncState prevState = [setIndex 0]
   ↔ syncState ≠ "ERROR" ∧ prevState ≠ Some syncState)
  ∧ (onClientSync syncState prevState = []
     ↔ syncState = "ERROR" ∨ prevState = Some syncState)
  ∧ (syncState ≠ "ERROR" ∧ prevState ≠ Some syncState →
     urlsIndex (step st (Sync syncState prevState)) = 0)
  ∧ (syncState = "ERROR" ∨ prevState = Some syncState →
     step st (Sync syncState prevState) = st).
Proof.
  rewrite step_Sync. unfold onClientSync, reconnected.
  destruct (decide (syncState = "ERROR")) as [Herr|Herr];
    destruct (decide (prevState = Some syncState)) as [Hprev|Hprev];
    repeat case_bool_decide; try done; cbn [andb negb];
    (repeat split; try done; try tauto; intros [? | ?]; done).
Qed.

(** The example of the specification: exhausted, then a transition out of
    the error state. *)
Example reconnect_from_exhausted :
  imageUrl (run (useImageUrl_mount false (Some "A") (Some ["B"]))
              [LoadFailure; LoadFailure; Sync "SYNCING" (Some "ERROR")])
  = Some "A".
Proof. reflexivity. Qed.

(** C3.  When a render brings inputs that differ by value from those of the
    last effect, the candidate list is rebuilt from the new inputs and the
    cursor is 0, whatever the cursor was. *)
Theorem input_change_rebuilds st lb url0 urls0 url urls :
  effectDeps st = urlEffectDeps url0 urls0 →
  (url, urls) ≠ (url0, urls0) →
  imageUrls (step st (Render lb url urls)) = calculateUrls lb url urls
  ∧ urlsIndex (step st (Render lb url urls)) = 0.
Proof.
  intros Hdeps Hne. rewrite step_Render_changed; [done|].
  rewrite Hdeps, urlEffectDeps_inj. done.
Qed.

Lemma input_change_rebuilds_witness :
  imageUrls (step (run (useImageUrl_mount false (Some "A") (Some ["B"; "C"]))
                     (failures 1))
               (Render false (Some "A") (Some ["C"; "B"])))
  = ["A"; "C"; "B"]
  ∧ urlsIndex (step (run (useImageUrl_mount false (Some "A") (Some ["B"; "C"]))
                       (failures 1))
                 (Render false (Some "A") (Some ["C"; "B"])))
    = 0.
Proof.
  apply (input_change_rebuilds
           (run (useImageUrl_mount false (Some "A") (Some ["B"; "C"])) (failures 1))
           false (Some "A") (Some ["B"; "C"]) (Some "A") (Some ["C"; "B"])).
  - reflexivity.
  - discriminate.
Defined.

(** C4, as stated, fails: nothing in [onError] stops the cursor at the
    length of the list.  With candidates A, B, a third load failure leaves
    the cursor at 3. *)
Lemma cursor_exceeds_length :
  urlsIndex (run (useImageUrl_mount false (Some "A") (Some ["B"])) (failures 3)) = 3
  ∧ length (imageUrls
      (run (useImageUrl_mount false (Some "A") (Some ["B"])) (failures 3))) = 2
  ∧ ¬ cursor_in_range
        (run (useImageUrl_mount false (Some "A") (Some ["B"])) (failures 3)).
Proof.
  repeat split. unfold cursor_in_range. simpl. lia.
Qed.

(** C4, amended.  The cursor is a natural number with no upper bound: each
    load failure adds exactly 1 to it, also at or past the length of the
    list; a reconnection or a change of the inputs sets it to 0 and any
    other event leaves it alone; after any sequence of events it is at
    most its starting value plus the number of load failures in the
    sequence; and the resolved candidate is absent exactly when the cursor
    is at or past the length of the list. *)
Theorem cursor_counts_failures st ev evs :
  urlsIndex (step st LoadFailure) = urlsIndex st + 1
  ∧ urlsIndex (step st ev)
    = (if resets st ev then 0
       else if is_failure ev then urlsIndex st + 1 else urlsIndex st)
  ∧ urlsIndex (run st evs) ≤ urlsIndex st + count_failures evs
  ∧ (imageUrl (run st evs) = None
     ↔ length (imageUrls (run st evs)) ≤ urlsIndex (run st evs)).
Proof.
  split; [by rewrite step_LoadFailure|].
  split; [apply urlsIndex_step|].
  split; [apply urlsIndex_run_le | apply imageUrl_None].
Qed.

(** C10.  The handlers of load failures and of sync events call no
    [setUrls] and leave the candidate list as it is, in every state; a
    render whose inputs equal those of the last effect changes nothing,
    whatever the low-bandwidth setting is by then. *)
Theorem handlers_keep_candidates st :
  (∀ l, setUrls l ∉ onError)
  ∧ (∀ syncState prevState l, setUrls l ∉ onClientSync syncState prevState)
  ∧ imageUrls (step st LoadFailure) = imageUrls st
  ∧ (∀ syncState prevState,
       imageUrls (step st (Sync syncState prevState)) = imageUrls st)
  ∧ (∀ lb url urls, effectDeps st = urlEffectDeps url urls →
       step st (Render lb url urls) = st)
  ∧ (∀ lb url urls, imageUrls (step st (Render lb url urls)) ≠ imageUrls st →
       urlEffectDeps url urls ≠ effectDeps st
       ∧ imageUrls (step st (Render lb url urls)) = calculateUrls lb url urls).
Proof.
  split; [|split; [|split; [|split; [|split]]]].
  - intros l Hin. apply list_elem_of_singleton in Hin. discriminate.
  - intros s p l. unfold onClientSync. destruct (reconnected s p).
    + intros Hin. apply list_elem_of_singleton in Hin. discriminate.
    + apply not_elem_of_nil.
  - by rewrite step_LoadFailure.
  - intros s p. rewrite step_Sync. by destruct (reconnected s p).
  - intros lb url urls Hdeps. by apply step_Render_same.
  - intros lb url urls Hchanged.
    destruct (decide (urlEffectDeps url urls = effectDeps st)) as [Heq|Hne].
    + by rewrite step_Render_same in Hchanged.
    + by rewrite step_Render_changed.
Qed.

(** ** The component *)

Section props.
Implicit Types (props : gmap string Val) (k : string) (names : list string).

Lemma lookup_rest_props names props k :
  rest_props names props !! k
  = if decide (k ∈ names) then None else props !! k.
Proof.
  induction names as [|n names IH]; simpl; [done|].
  rewrite lookup_delete, IH.
  destruct (decide (n = k)) as [->|Hne].
  - by rewrite decide_True by apply list_elem_of_here.
  - destruct (decide (k ∈ names)) as [Hin|Hin].
    + by rewrite decide_True by (by apply list_elem_of_further).
    + rewrite decide_False; [done|].
      rewrite elem_of_cons. intros [->|?]; done.
Qed.

(** A destructured name never reaches [otherProps]. *)
Lemma rest_props_delete names props k :
  k ∈ names → rest_props names (delete k props) = rest_props names props.
Proof.
  intros Hin. apply map_eq. intros j. rewrite !lookup_rest_props.
  case_decide as Hj; [done|].
  apply lookup_delete_ne. by intros ->.
Qed.

Lemma prop_delete_ne props k j : k ≠ j → prop (delete k props) j = prop props j.
Proof. intros Hne. unfold prop. by rewrite lookup_delete_ne. Qed.
End props.

Section component.
Context `{Collaborators}.
Implicit Types (props : gmap string Val) (st : HookState).

Lemma BaseAvatar_delete_resizeMethod props st :
  BaseAvatar (delete "resizeMethod" props) st = BaseAvatar props st.
Proof.
  unfold BaseAvatar, placeholderBackground, placeholderKey.
  rewrite !prop_delete_ne by done.
  rewrite rest_props_delete; [done|].
  unfold destructured. set_solver.
Qed.

Lemma BaseAvatar_placeholder props st :
  truthy (imageUrl st) = false →
  js_truthy (with_default (prop props "defaultToInitialLetter") (VBool true)) = true →
  is_placeholder (BaseAvatar props st) = true
  ∧ ∃ o, config_of (BaseAvatar props st) !! "style" = Some (VStyle o)
         ∧ o !! "background" = Some (placeholderBackground props).
Proof.
  intros Hurl Hdef. unfold BaseAvatar. rewrite Hurl, Hdef. cbn [negb andb].
  destruct (js_truthy (prop props "onClick")); (split; [done|]);
    cbn [config_of jsx foldl jsx_attr];
    eexists; (split; [apply lookup_insert_eq|]);
    by rewrite lookup_insert_ne, lookup_insert_eq.
Qed.

Lemma BaseAvatar_image props st :
  js_truthy (with_default (prop props "defaultToInitialLetter") (VBool true)) = false →
  is_placeholder (BaseAvatar props st) = false.
Proof.
  intros Hdef. unfold BaseAvatar. rewrite Hdef, andb_false_r.
  by destruct (js_truthy (prop props "onClick")).
Qed.

(** When every call returns, the render returns, and what it returns is
    the element of [BaseAvatar]. *)
Lemma BaseAvatar_outcome_returning lb props st :
  BaseAvatar_outcome (H := returning_calls lb) props st
  = Returns (BaseAvatar props st).
Proof.
  unfold BaseAvatar_outcome, BaseAvatar, placeholderBackground, js_cond.
  cbn [returning_calls call_getValue call_useEventEmitter call_toPx
       call_defaultAvatarUrlForString call_getInitialLetter call_classNames
       call_t mbind mret Outcome_bind Outcome_ret].
  destruct (negb (truthy (imageUrl st)) && _) eqn:Hbranch;
    destruct (js_truthy (prop props "onClick")); [| |done..];
    apply andb_prop in Hbranch as [_ Hdef]; by rewrite Hdef.
Qed.
End component.

(** The exceptions of the model are real: a colour generator that throws
    on the key makes the render of a placeholder throw. *)
Lemma BaseAvatar_outcome_generator_throws `{Calls} props st :
  truthy (imageUrl st) = false →
  js_truthy (with_default (prop props "defaultToInitialLetter") (VBool true)) = true →
  call_defaultAvatarUrlForString (placeholderKey props) = Throws →
  BaseAvatar_outcome props st = Throws.
Proof.
  intros Hurl Hdef Hthrows. unfold BaseAvatar_outcome.
  rewrite Hurl, Hdef, Hthrows. cbn [negb andb].
  destruct (call_getValue "lowBandwidth"); [done|].
  destruct call_useEventEmitter; [done|].
  destruct (call_toPx (_ * _)); [done|].
  destruct (call_toPx (as_number 40 (prop props "width"))); [done|].
  by destruct (call_toPx (as_number 40 (prop props "height"))).
Qed.

(** The component on a small props object: an image while a candidate
    resolves, the placeholder once the only candidate has failed.  The
    property [resizeMethod] reaches neither element. *)
Example render_image :
  BaseAvatar (H := sample_collaborators)
    {[ "name" := VStr "Alice"; "url" := VStr "A"; "resizeMethod" := VStr "crop";
       "aria-hidden" := VStr "true" ]}
    (useImageUrl_mount false (Some "A") None)
  = ImageImg
      {[ "className" := VStr "mx_BaseAvatar mx_BaseAvatar_image";
         "src" := VStr "A";
         "onError" := VOnError;
         "style" := VStyle {[ "width" := CssStr "40px"; "height" := CssStr "40px" ]};
         "title" := VUndefined;
         "alt" := VStr "";
         "ref" := VUndefined;
         "aria-hidden" := VStr "true" ]}.
Proof. vm_compute. reflexivity. Qed.

Example render_placeholder :
  BaseAvatar (H := sample_collaborators)
    {[ "name" := VStr "Alice"; "url" := VStr "A"; "resizeMethod" := VStr "crop";
       "aria-hidden" := VStr "true" ]}
    (run (useImageUrl_mount false (Some "A") None) (failures 1))
  = PlaceholderSpan
      {[ "className" := VStr "mx_BaseAvatar";
         "ref" := VUndefined;
         "aria-hidden" := VStr "true";
         "role" := VStr "presentation";
         "data-initial" := VStr "A";
         "style" := VStyle {[ "fontSize" := CssStr "26px";
                              "width" := CssStr "40px";
                              "height" := CssStr "40px";
                              "background" := CssStr "url(img/Alice)";
                              "borderRadius" := CssStr "50%" ]} ]}.
Proof. vm_compute. reflexivity. Qed.




(** C8.  When [defaultToInitialLetter] is false and no candidate resolves,
    the component returns through one of the two image branches, never
    through a placeholder branch. *)
Theorem no_placeholder_without_default `{Collaborators} props st :
  prop props "defaultToInitialLetter" = VBool false →
  imageUrl st = None →
  is_placeholder (BaseAvatar props st) = false.
Proof.
  intros Hdef _. apply BaseAvatar_image. by rewrite Hdef.
Qed.

Lemma no_placeholder_without_default_witness :
  is_placeholder
    (BaseAvatar (H := sample_collaborators)
       {[ "name" := VStr "Alice"; "defaultToInitialLetter" := VBool false ]}
       (run (useImageUrl_mount false (Some "A") None) (failures 1))) = false.
Proof.
  apply (no_placeholder_without_default (H := sample_collaborators)).
  - reflexivity.
  - reflexivity.
Defined.

(** C9.  Two props objects that differ at most in [resizeMethod] mount to
    the same hook state, make the same transition on a later render, and
    render to the same element in every hook state. *)
Theorem resizeMethod_inert `{Collaborators} props1 props2 lb st :
  delete "resizeMethod" props1 = delete "resizeMethod" props2 →
  BaseAvatar props1 st = BaseAvatar props2 st
  ∧ BaseAvatar_mount lb props1 = BaseAvatar_mount lb props2
  ∧ BaseAvatar_update lb props1 st = BaseAvatar_update lb props2 st.
Proof.
  intros Heq.
  assert (∀ k, k ≠ "resizeMethod" → prop props1 k = prop props2 k) as Hprop.
  { intros k Hk.
    rewrite <- (prop_delete_ne props1 "resizeMethod" k) by done.
    rewrite <- (prop_delete_ne props2 "resizeMethod" k) by done.
    by rewrite Heq. }
  split; [|split].
  - rewrite <- (BaseAvatar_delete_resizeMethod props1).
    rewrite <- (BaseAvatar_delete_resizeMethod props2).
    by rewrite Heq.
  - unfold BaseAvatar_mount, hookUrl, hookUrls. by rewrite !Hprop.
  - unfold BaseAvatar_update, hookUrl, hookUrls. by rewrite !Hprop.
Qed.

Lemma resizeMethod_inert_witness :
  BaseAvatar (H := sample_collaborators)
    {[ "name" := VStr "Alice"; "resizeMethod" := VStr "crop" ]}
    (useImageUrl_mount false None None)
  = BaseAvatar (H := sample_collaborators)
      {[ "name" := VStr "Alice"; "resizeMethod" := VStr "scale" ]}
      (useImageUrl_mount false None None).
Proof.
  apply (resizeMethod_inert (H := sample_collaborators)
           {[ "name" := VStr "Alice"; "resizeMethod" := VStr "crop" ]}
           {[ "name" := VStr "Alice"; "resizeMethod" := VStr "scale" ]}
           false (useImageUrl_mount false None None)).
  reflexivity.
Defined.


(** * Further properties of the code *)

(** ** The URL list builder *)

Section builder_more.
Implicit Types (l : list string) (x u : string).

Lemma calculateUrls_false_eq url urls :
  calculateUrls false url urls
  = dedup_first (prepend_present (nonempty_url url) (default [] urls)).
Proof.
  unfold calculateUrls, Array_from, nonempty_url, prepend_present.
  cbn [negb]. rewrite new_Set_dedup_first.
  destruct url as [u|]; [|done]. by destruct (truthy_string u).
Qed.

Lemma dedup_first_sublist l : dedup_first l `sublist_of` l.
Proof.
  induction l as [|x l IH]; simpl; [done|].
  apply sublist_skip. etrans; [apply sublist_filter|exact IH].
Qed.

Lemma filter_ne_notin x l : x ∉ l → filter (λ y, y ≠ x) l = l.
Proof.
  induction l as [|y l IH]; [done|].
  rewrite not_elem_of_cons. intros [Hne Hnotin].
  rewrite filter_cons_True by done. by rewrite IH.
Qed.

Lemma dedup_first_NoDup_id l : NoDup l → dedup_first l = l.
Proof.
  induction 1 as [|x l Hnotin _ IH]; simpl; [done|].
  by rewrite IH, filter_ne_notin.
Qed.

Lemma nonempty_url_truthy u : truthy_string u = true → nonempty_url (Some u) = Some u.
Proof. intros Hu. unfold nonempty_url. by rewrite Hu. Qed.
End builder_more.

(** X1.  The list [calculateUrls] returns never holds a URL twice. *)
Theorem calculateUrls_no_duplicates lb url urls :
  NoDup (calculateUrls lb url urls).
Proof.
  destruct lb; [constructor|].
  rewrite calculateUrls_false_eq. apply NoDup_dedup_first.
Qed.

(** X2.  With the low-bandwidth setting off, the result holds exactly the
    primary URL, if it is a non-empty string, and the fallbacks; an empty
    string among the fallbacks is kept. *)
Theorem calculateUrls_elements url urls x :
  x ∈ calculateUrls false url urls
  ↔ (url = Some x ∧ x ≠ "") ∨ x ∈ default [] urls.
Proof.
  rewrite calculateUrls_false_eq, elem_of_dedup_first.
  destruct url as [[|c u]|]; simpl.
  - split; [by right|]. intros [[[= <-] Hne]|Hin]; done.
  - rewrite elem_of_cons. split.
    + intros [->|Hin]; [left|right]; done.
    + intros [[[= <-] _]|Hin]; [left|right]; done.
  - split; [by right|]. intros [[[=] _]|Hin]; done.
Qed.

(** X3.  The result lists its URLs in the order of the input: it is a
    subsequence of the primary URL followed by the fallbacks, so it is never
    longer than that. *)
Theorem calculateUrls_keeps_order lb url urls :
  calculateUrls lb url urls `sublist_of` prepend_present url (default [] urls)
  ∧ length (calculateUrls lb url urls)
    ≤ length (prepend_present url (default [] urls)).
Proof.
  assert (calculateUrls lb url urls
          `sublist_of` prepend_present url (default [] urls)) as Hsub.
  { destruct lb; [apply sublist_nil_l|].
    rewrite calculateUrls_false_eq.
    etrans; [apply dedup_first_sublist|].
    destruct url as [u|]; simpl; [|done].
    destruct (truthy_string u); [done|]. by apply sublist_cons. }
  split; [done|]. by apply sublist_length.
Qed.

(** X4.  A primary URL that is a non-empty string is the first candidate,
    and the candidates after it are those built from the fallbacks alone,
    in their order, without the primary URL. *)
Theorem calculateUrls_primary_first u urls :
  u ≠ "" →
  calculateUrls false (Some u) urls
  = u :: filter (λ y, y ≠ u) (calculateUrls false None urls).
Proof.
  intros Hu. rewrite !calculateUrls_false_eq.
  destruct u as [|c u]; [done|]. reflexivity.
Qed.

Lemma calculateUrls_primary_first_witness :
  calculateUrls false (Some "A") (Some ["B"; "A"; "B"; "C"])
  = "A" :: filter (λ y, y ≠ "A") (calculateUrls false None (Some ["B"; "A"; "B"; "C"])).
Proof.
  apply (calculateUrls_primary_first "A" (Some ["B"; "A"; "B"; "C"])).
  discriminate.
Defined.

(** X5.  On fallbacks without duplicates and no primary URL, the builder
    returns the fallbacks as they are. *)
Theorem calculateUrls_NoDup_fallbacks l :
  NoDup l → calculateUrls false None (Some l) = l.
Proof.
  intros Hl. rewrite calculateUrls_false_eq. by apply dedup_first_NoDup_id.
Qed.

Lemma calculateUrls_NoDup_fallbacks_witness :
  calculateUrls false None (Some ["B"; "A"]) = ["B"; "A"].
Proof.
  apply (calculateUrls_NoDup_fallbacks ["B"; "A"]).
  apply (bool_decide_unpack _). reflexivity.
Defined.

(** X6.  Building again from a built list changes nothing. *)
Theorem calculateUrls_idempotent lb url urls :
  calculateUrls false None (Some (calculateUrls lb url urls))
  = calculateUrls lb url urls.
Proof.
  rewrite (calculateUrls_false_eq None). cbn [nonempty_url prepend_present default].
  apply dedup_first_NoDup_id.
  destruct lb; [constructor|].
  rewrite calculateUrls_false_eq. apply NoDup_dedup_first.
Qed.

(** ** The hook *)

Section hook_more.
Implicit Types (st : HookState) (ev : Event) (evs : list Event) (k : nat).

Lemma step_no_reset st ev :
  resets st ev = false →
  step st ev
  = mkHookState (imageUrls st)
      (if is_failure ev then urlsIndex st + 1 else urlsIndex st) (effectDeps st).
Proof.
  destruct ev as [|s p|lb url urls]; cbn [resets is_failure]; intros Hno.
  - by rewrite step_LoadFailure.
  - rewrite step_Sync, Hno. by destruct st.
  - apply bool_decide_eq_false in Hno. apply dec_stable in Hno.
    rewrite step_Render_same by done. by destruct st.
Qed.

Lemma run_no_reset st evs :
  Forall (λ ev, resets st ev = false) evs →
  run st evs
  = mkHookState (imageUrls st) (urlsIndex st + count_failures evs) (effectDeps st).
Proof.
  induction evs as [|ev evs IH] using rev_ind; intros Hall.
  - destruct st. simpl. f_equal. unfold count_failures. simpl. lia.
  - apply Forall_app in Hall as [Hevs Hev]. rewrite Forall_singleton in Hev.
    rewrite run_snoc, IH by done.
    rewrite step_no_reset.
    2:{ destruct ev; exact Hev. }
    cbn [imageUrls urlsIndex effectDeps]. f_equal.
    unfold count_failures. rewrite filter_app, length_app, filter_cons, filter_nil.
    destruct (is_failure ev); simpl; lia.
Qed.

Lemma step_NoDup st ev : NoDup (imageUrls st) → NoDup (imageUrls (step st ev)).
Proof.
  intros Hst. destruct ev as [|s p|lb url urls].
  - by rewrite step_LoadFailure.
  - rewrite step_Sync. by destruct (reconnected s p).
  - destruct (decide (urlEffectDeps url urls = effectDeps st)) as [Heq|Hne].
    + by rewrite step_Render_same.
    + rewrite step_Render_changed by done. apply NoDup_calculateUrls.
Qed.

Lemma run_NoDup st evs : NoDup (imageUrls st) → NoDup (imageUrls (run st evs)).
Proof.
  intros Hst. induction evs as [|ev evs IH] using rev_ind; [done|].
  rewrite run_snoc. by apply step_NoDup.
Qed.

Lemma effectDeps_Render st lb url urls :
  effectDeps (step st (Render lb url urls)) = urlEffectDeps url urls.
Proof.
  destruct (decide (urlEffectDeps url urls = effectDeps st)) as [Heq|Hne].
  - by rewrite step_Render_same.
  - by rewrite step_Render_changed.
Qed.

Lemma last_build_snoc init evs ev :
  last_build init (evs ++ [ev])
  = match ev with
    | Render lb url urls =>
        if decide ((url, urls) = (last_build init evs).2)
        then last_build init evs else (lb, (url, urls))
    | _ => last_build init evs
    end.
Proof. unfold last_build. by rewrite foldl_app. Qed.

Lemma last_inputs_snoc init evs ev :
  last_inputs init (evs ++ [ev])
  = match ev with
    | Render _ url urls => (url, urls)
    | _ => last_inputs init evs
    end.
Proof. unfold last_inputs. by rewrite foldl_app. Qed.
End hook_more.

(** X7.  A render leaves the state as it is exactly when its inputs equal
    those of the last effect by value: the same URL, and the same fallbacks
    in the same order, [undefined] being different from the empty array. *)
Theorem render_unchanged_iff_same_inputs st lb url0 urls0 url urls :
  effectDeps st = urlEffectDeps url0 urls0 →
  step st (Render lb url urls) = st ↔ (url, urls) = (url0, urls0).
Proof.
  intros Hdeps. rewrite <- urlEffectDeps_inj, <- Hdeps. split.
  - intros Hst. rewrite <- (effectDeps_Render st lb url urls). by rewrite Hst.
  - apply step_Render_same.
Qed.

Lemma render_unchanged_iff_same_inputs_witness :
  step (useImageUrl_mount false None (Some [])) (Render false None None)
  = useImageUrl_mount false None (Some [])
  ↔ (None, None) = (@None string, Some (@nil string)).
Proof.
  apply (render_unchanged_iff_same_inputs
           (useImageUrl_mount false None (Some [])) false None (Some []) None None).
  reflexivity.
Defined.

(** X8.  A second render with the same inputs changes nothing, whatever the
    low-bandwidth setting is at either render: the effect does not run
    again. *)
Theorem render_twice st lb lb' url urls :
  step (step st (Render lb url urls)) (Render lb' url urls)
  = step st (Render lb url urls).
Proof. apply step_Render_same. by rewrite effectDeps_Render. Qed.

(** X9.  In every state reached from a mount, the candidate list has no
    duplicates. *)
Theorem reachable_candidates_NoDup lb url urls evs :
  NoDup (imageUrls (run (useImageUrl_mount lb url urls) evs)).
Proof.
  apply run_NoDup. rewrite useImageUrl_mount_eq. apply NoDup_calculateUrls.
Qed.

(** X10.  In every state reached from a mount, the candidate list is what
    [calculateUrls] gives for the inputs of the latest render, at the value
    the low-bandwidth setting had at the latest render whose inputs
    differed from those of the render before it, or at the mount when
    there was none; and the remembered dependencies are those of the
    inputs of the latest render. *)
Theorem reachable_candidates_from_last_inputs lb url urls evs :
  imageUrls (run (useImageUrl_mount lb url urls) evs)
  = calculateUrls (last_build (lb, (url, urls)) evs).1
      (last_build (lb, (url, urls)) evs).2.1
      (last_build (lb, (url, urls)) evs).2.2
  ∧ effectDeps (run (useImageUrl_mount lb url urls) evs)
    = urlEffectDeps (last_inputs (url, urls) evs).1 (last_inputs (url, urls) evs).2
  ∧ (last_build (lb, (url, urls)) evs).2 = last_inputs (url, urls) evs.
Proof.
  induction evs as [|ev evs (IHurls & IHdeps & IHin)] using rev_ind.
  - by repeat split.
  - rewrite run_snoc, last_inputs_snoc, last_build_snoc.
    destruct ev as [|s p|lb1 url1 urls1].
    + by rewrite step_LoadFailure.
    + rewrite step_Sync. by destruct (reconnected s p).
    + cbn [fst snd]. case_decide as Hsame.
      * rewrite step_Render_same.
        2:{ rewrite IHdeps, <- IHin, <- Hsame. done. }
        rewrite <- IHin, <- Hsame in IHdeps. by rewrite <- Hsame in IHin.
      * rewrite step_Render_changed; [done|].
        rewrite IHdeps, urlEffectDeps_inj, <- IHin.
        intros Heq. apply Hsame. rewrite Heq. by destruct (last_build _ _).2.
Qed.

(** X11.  As long as no event resets the cursor (no reconnection, no render
    with changed inputs), the cursor is its starting value plus the number of
    load failures, and the candidate list and the dependencies stay as they
    were. *)
Theorem run_without_reset st evs :
  Forall (λ ev, resets st ev = false) evs →
  run st evs
  = mkHookState (imageUrls st) (urlsIndex st + count_failures evs) (effectDeps st).
Proof. apply run_no_reset. Qed.

Lemma run_without_reset_witness :
  run (useImageUrl_mount false (Some "A") (Some ["B"]))
    [LoadFailure; Sync "ERROR" (Some "SYNCING"); Render true (Some "A") (Some ["B"]);
     LoadFailure; Sync "SYNCING" (Some "SYNCING")]
  = mkHookState ["A"; "B"] 2 (urlEffectDeps (Some "A") (Some ["B"])).
Proof.
  refine (run_without_reset (useImageUrl_mount false (Some "A") (Some ["B"]))
            [LoadFailure; Sync "ERROR" (Some "SYNCING");
             Render true (Some "A") (Some ["B"]);
             LoadFailure; Sync "SYNCING" (Some "SYNCING")] _).
  repeat constructor.
Defined.

(** X12.  Once no candidate resolves, none resolves after any further
    events that do not reset the cursor. *)
Theorem exhausted_until_reset st evs :
  imageUrl st = None →
  Forall (λ ev, resets st ev = false) evs →
  imageUrl (run st evs) = None.
Proof.
  intros Hnone Hall. rewrite run_no_reset by done.
  apply imageUrl_None in Hnone. apply lookup_ge_None. simpl. lia.
Qed.

Lemma exhausted_until_reset_witness :
  imageUrl (run (run (useImageUrl_mount false (Some "A") None) (failures 1))
              [Sync "ERROR" (Some "SYNCING"); LoadFailure]) = None.
Proof.
  apply (exhausted_until_reset
           (run (useImageUrl_mount false (Some "A") None) (failures 1))
           [Sync "ERROR" (Some "SYNCING"); LoadFailure]).
  - reflexivity.
  - repeat constructor.
Defined.

(** X13.  A reconnection brings back the first candidate after any number
    of load failures; load failures after the reconnection count from it. *)
Theorem reconnection_restarts st syncState prevState k j :
  reconnected syncState prevState = true →
  imageUrl (run st (failures k ++ [Sync syncState prevState])) = head (imageUrls st)
  ∧ imageUrl (run st (Sync syncState prevState :: failures j)) = imageUrls st !! j.
Proof.
  intros Hrec. split.
  - rewrite run_snoc, run_failures, step_Sync, Hrec.
    unfold imageUrl. simpl. by rewrite head_lookup.
  - change (run st (Sync syncState prevState :: failures j))
      with (run (step st (Sync syncState prevState)) (failures j)).
    rewrite run_failures, step_Sync, Hrec. reflexivity.
Qed.

Lemma reconnection_restarts_witness :
  imageUrl (run (useImageUrl_mount false (Some "A") (Some ["B"]))
              (failures 2 ++ [Sync "CATCHUP" None])) = Some "A"
  ∧ imageUrl (run (useImageUrl_mount false (Some "A") (Some ["B"]))
                (Sync "CATCHUP" None :: failures 1)) = Some "B".
Proof.
  apply (reconnection_restarts (useImageUrl_mount false (Some "A") (Some ["B"]))
           "CATCHUP" None 2 1).
  reflexivity.
Defined.

(** X14.  Between two resets no URL is offered twice: after different
    numbers of load failures from a reachable state, the resolved
    candidates differ. *)
Theorem no_url_offered_twice lb url urls evs k1 k2 u :
  k1 ≠ k2 →
  imageUrl (run (run (useImageUrl_mount lb url urls) evs) (failures k1)) = Some u →
  imageUrl (run (run (useImageUrl_mount lb url urls) evs) (failures k2)) ≠ Some u.
Proof.
  intros Hne H1 H2. rewrite run_failures in H1, H2.
  unfold imageUrl in H1, H2. cbn [imageUrls urlsIndex] in H1, H2.
  pose proof (run_NoDup (useImageUrl_mount lb url urls) evs) as Hnd.
  rewrite useImageUrl_mount_eq in Hnd at 1.
  specialize (Hnd (NoDup_calculateUrls lb url urls)).
  pose proof (NoDup_lookup _ _ _ _ Hnd H1 H2). lia.
Qed.

Lemma no_url_offered_twice_witness :
  imageUrl (run (run (useImageUrl_mount false (Some "A") (Some ["B"; "A"])) [])
              (failures 2)) ≠ Some "A".
Proof.
  apply (no_url_offered_twice false (Some "A") (Some ["B"; "A"]) [] 0 2 "A").
  - discriminate.
  - reflexivity.
Defined.

(** X15.  Mounted with the low-bandwidth setting on, the hook resolves no
    candidate, whatever the inputs are, until an event resets the cursor:
    load failures, sync events that are no reconnection and renders with
    the same inputs leave it so even when the setting has been turned off
    by then. *)
Theorem lowBandwidth_mount_resolves_nothing url urls evs :
  Forall (λ ev, resets (useImageUrl_mount true url urls) ev = false) evs →
  imageUrl (run (useImageUrl_mount true url urls) evs) = None.
Proof.
  intros Hall. rewrite run_no_reset by done. reflexivity.
Qed.

Lemma lowBandwidth_mount_resolves_nothing_witness :
  imageUrl (run (useImageUrl_mount true (Some "A") (Some ["B"]))
              [Render false (Some "A") (Some ["B"]); LoadFailure]) = None.
Proof.
  apply (lowBandwidth_mount_resolves_nothing (Some "A") (Some ["B"])
           [Render false (Some "A") (Some ["B"]); LoadFailure]).
  repeat constructor.
Defined.


(** ** The component *)

Section component_more.
Context `{Collaborators}.
Implicit Types (props : gmap string Val) (st : HookState) (k : string).

Lemma otherProps_destructured props k :
  k ∈ destructured → rest_props destructured props !! k = None.
Proof. intros Hin. by rewrite lookup_rest_props, decide_True. Qed.

Lemma otherProps_other props k :
  k ∉ destructured → rest_props destructured props !! k = props !! k.
Proof. intros Hin. by rewrite lookup_rest_props, decide_False. Qed.

(** The same for a name that is given: the test computes. *)
Lemma lookup_otherProps props k :
  rest_props destructured props !! k
  = if bool_decide (k ∈ destructured) then None else props !! k.
Proof.
  rewrite lookup_rest_props. case_bool_decide.
  - by rewrite decide_True.
  - by rewrite decide_False.
Qed.

Lemma is_placeholder_BaseAvatar props st :
  is_placeholder (BaseAvatar props st)
  = negb (truthy (imageUrl st)) && placeholder_enabled props.
Proof.
  unfold BaseAvatar, placeholder_enabled.
  destruct (negb (truthy (imageUrl st)) && _);
    by destruct (js_truthy (prop props "onClick")).
Qed.
End component_more.

(** X16.  The component returns a placeholder exactly when the resolved
    candidate is falsy (absent or the empty string) and
    [defaultToInitialLetter], after its default [true], is truthy. *)
Theorem placeholder_iff `{Collaborators} props st :
  is_placeholder (BaseAvatar props st)
  = negb (truthy (imageUrl st)) && placeholder_enabled props.
Proof. apply is_placeholder_BaseAvatar. Qed.

(** X17.  The element goes through [AccessibleButton] exactly when
    [onClick] is truthy, in the placeholder and in the image case alike. *)
Theorem button_iff_onClick `{Collaborators} props st :
  is_button (BaseAvatar props st) = js_truthy (prop props "onClick").
Proof.
  unfold BaseAvatar.
  destruct (negb (truthy (imageUrl st)) && _);
    by destruct (js_truthy (prop props "onClick")).
Qed.

Section component_config.
Context `{Collaborators}.
Implicit Types (props : gmap string Val) (st : HookState) (k : string).

(** Splitting on the branch the component returns through. *)
Ltac branches props st :=
  unfold BaseAvatar, placeholder_enabled in *;
  destruct (negb (truthy (imageUrl st))
            && js_truthy (with_default (prop props "defaultToInitialLetter")
                            (VBool true))) eqn:Hbranch;
  destruct (js_truthy (prop props "onClick")) eqn:Hclick;
  cbn [config_of is_placeholder is_button jsx foldl jsx_attr] in *.

Lemma config_consumed props st k :
  k ∈ consumed → config_of (BaseAvatar props st) !! k = None.
Proof.
  intros Hin.
  assert (k ∈ destructured) as Hd.
  { unfold consumed in Hin. unfold destructured.
    rewrite !elem_of_cons in Hin. rewrite !elem_of_cons. tauto. }
  assert (Forall (λ a, a ≠ k)
            [ "aria-label"; "element"; "className"; "onClick"; "inputRef";
              "data-initial"; "style"; "ref"; "role"; "src"; "onError";
              "title"; "alt" ]) as Hne.
  { revert Hin. unfold consumed. rewrite !elem_of_cons, elem_of_nil.
    intros Hk. repeat constructor; intros <-; intuition discriminate. }
  repeat (apply Forall_cons in Hne as [? Hne]).
  branches props st;
    rewrite ?lookup_insert_ne by done;
    rewrite lookup_union_r by (by apply otherProps_destructured);
    rewrite ?lookup_insert_ne by done; apply lookup_empty.
Qed.

(** X18.  The properties [name], [idName], [url], [urls], [width],
    [height], [resizeMethod] and [defaultToInitialLetter] never appear
    among the properties of the returned element, in any branch. *)
Theorem consumed_props_not_forwarded props st :
  Forall (λ k, config_of (BaseAvatar props st) !! k = None) consumed.
Proof. apply Forall_forall. intros k Hk. by apply config_consumed. Qed.

(** X19.  In the image branches every property of [props] that the
    component does not destructure reaches the element with the value the
    caller gave, also when its name is one the component sets itself
    ([src], [onError], [alt], [element]). *)
Theorem image_forwards_other_props props st k v :
  is_placeholder (BaseAvatar props st) = false →
  k ∉ destructured → props !! k = Some v →
  config_of (BaseAvatar props st) !! k = Some v.
Proof.
  intros Himg Hk Hv. branches props st; try done;
    apply lookup_union_Some_l; by rewrite otherProps_other.
Qed.

(** X20.  In the image branches, when the caller passes neither [src] nor
    [onError], the element's [src] is the resolved candidate ([undefined]
    when it is absent) and its [onError] is the callback of the hook. *)
Theorem image_src_and_onError props st :
  is_placeholder (BaseAvatar props st) = false →
  props !! "src" = None → props !! "onError" = None →
  config_of (BaseAvatar props st) !! "src" = Some (of_string (imageUrl st))
  ∧ config_of (BaseAvatar props st) !! "onError" = Some VOnError.
Proof.
  intros Himg Hsrc Herr. branches props st; try done; split;
    rewrite lookup_union_r by (by rewrite lookup_otherProps);
    rewrite ?lookup_insert_ne by done; apply lookup_insert_eq.
Qed.

(** X21.  In the placeholder branches the element carries no [title], and
    its [src] and [onError] are only what the caller passed under these
    names: the callback of the hook is not attached, so a placeholder
    reports no load failure. *)
Theorem placeholder_not_wired props st :
  is_placeholder (BaseAvatar props st) = true →
  config_of (BaseAvatar props st) !! "title" = None
  ∧ config_of (BaseAvatar props st) !! "src" = props !! "src"
  ∧ config_of (BaseAvatar props st) !! "onError" = props !! "onError".
Proof.
  intros Hph. branches props st; try done; repeat split;
    rewrite ?lookup_insert_ne by done;
    rewrite lookup_union, ?lookup_insert_ne, lookup_empty by done;
    rewrite lookup_otherProps; cbn [bool_decide];
    by destruct (props !! _).
Qed.

(** X22.  In the placeholder branches [data-initial] is always
    [getInitialLetter(name)] and [style] is the style the component
    computes: the [null] alternative of line 133 and 144 is never taken,
    and a [data-initial] passed by the caller is overridden. *)
Theorem placeholder_initial_letter props st :
  is_placeholder (BaseAvatar props st) = true →
  config_of (BaseAvatar props st) !! "data-initial"
  = Some (getInitialLetter (prop props "name")).
Proof.
  intros Hph. branches props st; try done;
    apply andb_prop in Hbranch as [_ Hdef];
    rewrite lookup_insert_ne, lookup_insert_eq by done;
    unfold js_cond; by rewrite Hdef.
Qed.

(** X23.  For [width], [height] and [style] of their declared types
    (a number, an object, or [undefined]), the element's [style] keeps every
    property of the caller's [style] except those the component sets:
    [width] and [height] in the image branches, and also [fontSize],
    [background] and [borderRadius] in the placeholder branches; [width]
    and [height] are [toPx] of the size given, and of 40 when it is
    [undefined]. *)
Theorem style_merge props st :
  number_or_undefined (prop props "width") = true →
  number_or_undefined (prop props "height") = true →
  style_or_undefined (prop props "style") = true →
  ∃ o, config_of (BaseAvatar props st) !! "style" = Some (VStyle o)
    ∧ o !! "width"
      = Some (CssStr (toPx (match prop props "width" with
                            | VNum n => n
                            | _ => 40
                            end)))
    ∧ o !! "height"
      = Some (CssStr (toPx (match prop props "height" with
                            | VNum n => n
                            | _ => 40
                            end)))
    ∧ ∀ k, k ∉ (if is_placeholder (BaseAvatar props st)
                then placeholder_style_keys else image_style_keys) →
           o !! k = match prop props "style" with
                    | VStyle caller => caller !! k
                    | _ => None
                    end.
Proof.
  intros _ _ _.
  change (λ v, match v with VNum n => n | _ => 40%float end) with (as_number 40).
  branches props st; eexists;
    (split;
       [first [ apply lookup_insert_eq
              | rewrite lookup_union_r by (by rewrite lookup_otherProps);
                rewrite ?lookup_insert_ne by done; apply lookup_insert_eq ]
       |split; [|split]]);
    try (rewrite ?lookup_insert_ne by done; apply lookup_insert_eq);
    intros k; unfold placeholder_style_keys, image_style_keys;
    rewrite !not_elem_of_cons; intros Hk;
    rewrite !lookup_insert_ne by (intros <-; tauto);
    unfold as_style; by destruct (prop props "style").
Qed.


(** X25.  Mounted with the low-bandwidth setting on, the component shows
    the placeholder exactly when [defaultToInitialLetter] allows it,
    whatever URLs it was given. *)
Theorem lowBandwidth_mount_renders props :
  is_placeholder (BaseAvatar props (BaseAvatar_mount true props))
  = placeholder_enabled props.
Proof. by rewrite is_placeholder_BaseAvatar. Qed.
End component_config.

Lemma style_merge_witness :
  ∃ o, config_of
         (BaseAvatar (H := sample_collaborators)
            {[ "name" := VStr "Alice"; "width" := VNum 40;
               "style" := VStyle {[ "opacity" := CssStr "0.5";
                                    "width" := CssStr "1px" ]} ]}
            (useImageUrl_mount false None None)) !! "style" = Some (VStyle o)
    ∧ o !! "width" = Some (CssStr "40px")
    ∧ o !! "opacity" = Some (CssStr "0.5").
Proof.
  destruct (style_merge (H := sample_collaborators)
              {[ "name" := VStr "Alice"; "width" := VNum 40;
                 "style" := VStyle {[ "opacity" := CssStr "0.5";
                                      "width" := CssStr "1px" ]} ]}
              (useImageUrl_mount false None None))
    as (o & Hstyle & Hwidth & _ & Hkeep).
  - reflexivity.
  - reflexivity.
  - reflexivity.
  - exists o. split; [exact Hstyle|]. split; [exact Hwidth|].
    apply (Hkeep "opacity"). apply (bool_decide_unpack _). reflexivity.
Defined.

Lemma image_forwards_other_props_witness :
  config_of
    (BaseAvatar (H := sample_collaborators)
       {[ "name" := VStr "Alice"; "url" := VStr "A"; "src" := VStr "elsewhere" ]}
       (useImageUrl_mount false (Some "A") None)) !! "src"
  = Some (VStr "elsewhere").
Proof.
  apply (image_forwards_other_props (H := sample_collaborators)).
  - reflexivity.
  - apply (bool_decide_unpack _). reflexivity.
  - reflexivity.
Defined.

Lemma image_src_and_onError_witness :
  config_of
    (BaseAvatar (H := sample_collaborators)
       {[ "name" := VStr "Alice"; "defaultToInitialLetter" := VBool false ]}
       (useImageUrl_mount false None None)) !! "src" = Some VUndefined
  ∧ config_of
      (BaseAvatar (H := sample_collaborators)
         {[ "name" := VStr "Alice"; "defaultToInitialLetter" := VBool false ]}
         (useImageUrl_mount false None None)) !! "onError" = Some VOnError.
Proof.
  apply (image_src_and_onError (H := sample_collaborators)
           {[ "name" := VStr "Alice"; "defaultToInitialLetter" := VBool false ]}
           (useImageUrl_mount false None None)); reflexivity.
Defined.

Lemma placeholder_not_wired_witness :
  config_of
    (BaseAvatar (H := sample_collaborators)
       {[ "name" := VStr "Alice"; "title" := VStr "Alice (admin)" ]}
       (useImageUrl_mount false None None)) !! "title" = None
  ∧ config_of
      (BaseAvatar (H := sample_collaborators)
         {[ "name" := VStr "Alice"; "title" := VStr "Alice (admin)" ]}
         (useImageUrl_mount false None None)) !! "src" = None
  ∧ config_of
      (BaseAvatar (H := sample_collaborators)
         {[ "name" := VStr "Alice"; "title" := VStr "Alice (admin)" ]}
         (useImageUrl_mount false None None)) !! "onError" = None.
Proof.
  refine (placeholder_not_wired (H := sample_collaborators)
            {[ "name" := VStr "Alice"; "title" := VStr "Alice (admin)" ]}
            (useImageUrl_mount false None None) _).
  reflexivity.
Defined.

Lemma placeholder_initial_letter_witness :
  config_of
    (BaseAvatar (H := sample_collaborators)
       {[ "name" := VStr "Alice"; "data-initial" := VStr "Z" ]}
       (useImageUrl_mount false None None)) !! "data-initial"
  = Some (VStr "A").
Proof.
  refine (placeholder_initial_letter (H := sample_collaborators)
            {[ "name" := VStr "Alice"; "data-initial" := VStr "Z" ]}
            (useImageUrl_mount false None None) _).
  reflexivity.
Defined.

